(** * The streaming transcription pipeline of [fastapi-backend/main.py]

    A shallow embedding of [process_audio_file], [transcribe_audio] and the
    [/transcribe] endpoint.  Python [str] values are [string]s whose
    characters are the code points below 256, timestamps are binary64
    floats, the temporary directory is a finite map from paths to contents,
    and every call into a library (the upload, pydub, faster-whisper,
    [float.__repr__]) takes its outcome from an [Environment]. *)

From Stdlib Require Import ZArith NArith Bool Ascii String List.
From Stdlib Require Import Floats.PrimFloat.
From stdpp Require Import gmap strings list fin_maps.

Local Open Scope string_scope.

(* ===================================================================== *)
(** ** Python strings *)
(* ===================================================================== *)

Definition LF : string := String "010"%char "".
Definition DQUOTE : string := String "034"%char "".

(** [str.isspace] on one character: tab to carriage return, the four
    separators 0x1c-0x1f, space, NEL (0x85) and the no-break space (0xa0). *)
Definition isspace (c : ascii) : bool :=
  let n := N_of_ascii c in
  ((9 <=? n) && (n <=? 13) || (28 <=? n) && (n <=? 32) || (n =? 133) || (n =? 160))%N.

Fixpoint lstrip (s : string) : string :=
  match s with
  | EmptyString => EmptyString
  | String c rest => if isspace c then lstrip rest else s
  end.

Fixpoint rstrip (s : string) : string :=
  match s with
  | EmptyString => EmptyString
  | String c rest =>
      match rstrip rest with
      | EmptyString => if isspace c then EmptyString else String c EmptyString
      | kept => String c kept
      end
  end.

(** [s.strip()] *)
Definition strip (s : string) : string := rstrip (lstrip s).

(** Truth value of a [str]: [if text:]. *)
Definition truthy (s : string) : bool :=
  match s with EmptyString => false | String _ _ => true end.

(** [s[:-4]]: everything but the last four characters (all of them gone
    when the string is shorter). *)
Definition drop_last4 (s : string) : string :=
  String.substring 0 (String.length s - 4) s.

(** [s.endswith(suffix)] *)
Definition endswith (s suffix : string) : bool :=
  String.eqb
    (String.substring (String.length s - String.length suffix)
                      (String.length suffix) s)
    suffix
  && (String.length suffix <=? String.length s)%nat.

(* ===================================================================== *)
(** ** Exceptions *)
(* ===================================================================== *)

Record HTTPException := { status_code : Z; detail : string }.

(** What an [except Exception as e] clause can catch here: an
    [HTTPException], or a library error of which only [str(e)] is used. *)
Inductive exception :=
| Http (e : HTTPException)
| LibraryError (message : string).

(** A call that returns or raises. *)
Definition raises (E A : Type) : Type := E + A.

(* ===================================================================== *)
(** ** Segments and the records sent to the client *)
(* ===================================================================== *)

Record Segment := { start : float; end_ : float; text : string }.

(** Values stored in the dictionaries handed to [json.dumps]. *)
Inductive value :=
| Str (s : string)
| Float (f : float)
| Bool (b : bool).

(** A [dict] literal, keys in insertion order. *)
Definition dict := list (string * value).

Fixpoint get (d : dict) (key : string) : option value :=
  match d with
  | [] => None
  | (k, v) :: rest => if String.eqb k key then Some v else get rest key
  end.

Definition keys (d : dict) : list string := map fst d.

(** Lines 101-107. *)
Definition result (current_speaker text : string) (segment : Segment) : dict :=
  [ ("speaker", Str current_speaker);
    ("text", Str text);
    ("start", Float (start segment));
    ("end", Float (end_ segment));
    ("complete", Bool false) ].

(** Line 115. *)
Definition completion : dict := [ ("complete", Bool true) ].

(* ===================================================================== *)
(** ** [json.dumps] with its defaults *)
(* ===================================================================== *)

Definition hex_digit (n : N) : string :=
  String.substring (N.to_nat n) 1 "0123456789abcdef".

(** One character of a string under [ensure_ascii=True]. *)
Definition escape_char (c : ascii) : string :=
  let n := N_of_ascii c in
  if (n =? 34)%N then "\" +:+ DQUOTE
  else if (n =? 92)%N then "\\"
  else if (n =? 8)%N then "\b"
  else if (n =? 12)%N then "\f"
  else if (n =? 10)%N then "\n"
  else if (n =? 13)%N then "\r"
  else if (n =? 9)%N then "\t"
  else if ((n <? 32) || (126 <? n))%N
       then "\u00" +:+ hex_digit (n / 16) +:+ hex_digit (n mod 16)
  else String c "".

Fixpoint escape (s : string) : string :=
  match s with
  | EmptyString => EmptyString
  | String c rest => escape_char c +:+ escape rest
  end.

Definition dumps_str (s : string) : string := DQUOTE +:+ escape s +:+ DQUOTE.

(** Floats print as [float.__repr__] does, taken as [repr]; the three
    non-finite values print as JavaScript names. *)
Definition dumps_float (repr : float -> string) (f : float) : string :=
  if PrimFloat.is_nan f then "NaN"
  else if PrimFloat.eqb f infinity then "Infinity"
  else if PrimFloat.eqb f neg_infinity then "-Infinity"
  else repr f.

Definition dumps_value (repr : float -> string) (v : value) : string :=
  match v with
  | Str s => dumps_str s
  | Float f => dumps_float repr f
  | Bool true => "true"
  | Bool false => "false"
  end.

Fixpoint dumps_items (repr : float -> string) (d : dict) : string :=
  match d with
  | [] => ""
  | (k, v) :: rest =>
      dumps_str k +:+ ": " +:+ dumps_value repr v +:+
      match rest with
      | [] => ""
      | _ :: _ => ", " +:+ dumps_items repr rest
      end
  end.

Definition json_dumps (repr : float -> string) (d : dict) : string :=
  "{" +:+ dumps_items repr d +:+ "}".

(* ===================================================================== *)
(** ** Turn attribution: the loop of [transcribe_audio], lines 91-112 *)
(* ===================================================================== *)

(** The two local variables the loop carries. *)
Record locals := { current_speaker : string; last_end_time : float }.

(** Lines 91-92; the integer [0] meets floats only, where it is [0.0]. *)
Definition initial : locals :=
  {| current_speaker := "Speaker 1"; last_end_time := 0%float |}.

(** Line 97. *)
Definition other_speaker (current : string) : string :=
  if String.eqb current "Speaker 1" then "Speaker 2" else "Speaker 1".

(** Line 96. *)
Definition significant_pause (st : locals) (segment : Segment) : bool :=
  (0.5 <? start segment - last_end_time st)%float.

(** Lines 96-97: the speaker after the pause check. *)
Definition pause_check (st : locals) (segment : Segment) : string :=
  if significant_pause st segment
  then other_speaker (current_speaker st)
  else current_speaker st.

(** One iteration: the locals afterwards and the dictionary it yields, if
    it yields. *)
Definition loop_body (st : locals) (segment : Segment) : locals * option dict :=
  let speaker := pause_check st segment in
  let stripped := strip (text segment) in
  if truthy stripped
  then ({| current_speaker := speaker; last_end_time := end_ segment |},
        Some (result speaker stripped segment))
  else ({| current_speaker := speaker; last_end_time := last_end_time st |},
        None).

Fixpoint for_loop (st : locals) (segments : list Segment) : locals * list dict :=
  match segments with
  | [] => (st, [])
  | segment :: rest =>
      let (st1, yielded) := loop_body st segment in
      let (st2, later) := for_loop st1 rest in
      (st2, match yielded with Some r => r :: later | None => later end)
  end.

(* ===================================================================== *)
(** ** The temporary directory *)
(* ===================================================================== *)

(** Paths to contents. *)
Abbreviation files := (gmap string (list Byte.byte)).

(** [os.remove]: [None] when it raises (no such file). *)
Definition os_remove (fs : files) (path : string) : option files :=
  match fs !! path with
  | Some _ => Some (delete path fs)
  | None => None
  end.

(** Lines 122-126: the second removal is attempted only after the first
    succeeded; an error is printed and swallowed. *)
Definition cleanup (fs : files) (file_path : string) : files :=
  match os_remove fs file_path with
  | None => fs
  | Some fs1 =>
      match os_remove fs1 (drop_last4 file_path) with
      | None => fs1
      | Some fs2 => fs2
      end
  end.

(** The library calls made inside the [try] of [process_audio_file]. *)
Inductive call :=
| Tempfile      (* line 29 *)
| Upload        (* line 31 *)
| Write         (* lines 32-33 *)
| Decoder       (* lines 38 and 41 *)
| Normalizer    (* line 44 *)
| Exporter.     (* lines 48-56 *)

(** An exception raised by one of them: the call it comes from and its
    [str(e)]. *)
Record raised := { by_call : call; str_e : string }.

(** Computations on the temporary directory that return or raise. *)
Definition io (A : Type) : Type := files -> raises raised A * files.

Definition ret {A} (a : A) : io A := fun fs => (inr a, fs).

Definition bind {A B} (c : io A) (k : A -> io B) : io B :=
  fun fs =>
    match c fs with
    | (inl e, fs1) => (inl e, fs1)
    | (inr a, fs1) => k a fs1
    end.

(** A call that leaves the directory alone. *)
Definition lift {A} (c : call) (r : raises string A) : io A :=
  fun fs =>
    (match r with
     | inl message => inl {| by_call := c; str_e := message |}
     | inr a => inr a
     end, fs).

Notation "'run' x <~ c ;; k" := (bind c (fun x => k))
  (at level 10, x name, c at level 99, k at level 200, only parsing).

(* ===================================================================== *)
(** ** The libraries' side of one invocation *)
(* ===================================================================== *)

(** What [model.transcribe] gives: the segments its lazy sequence yields
    and, when the engine fails, the message it then raises (a failure of
    the call itself is the case of no segment). *)
Record transcription := { segments : list Segment; failure : option string }.

Record Environment := {
  Audio : Type;
  (** [float.__repr__] *)
  float_repr : float -> string;
  (** the name [NamedTemporaryFile] picks, up to its suffix *)
  temp_name : string;
  (** the message [NamedTemporaryFile] raises with, when it cannot create
      the file *)
  tempfile_error : option string;
  (** the message [write] or [flush] raises with, when one of them does,
      and what is in the file by then *)
  write_error : option (string * list Byte.byte);
  (** [AudioSegment.from_file(path, format=...)] *)
  from_file : string -> option string -> raises string Audio;
  (** [audio.normalize()] *)
  normalize : Audio -> raises string Audio;
  (** [audio.export(path, format="wav", ...)]: the bytes written *)
  export : Audio -> string -> raises string (list Byte.byte);
  (** [model.transcribe(path, ...)] *)
  model_transcribe : string -> transcription
}.

Record UploadFile := {
  filename : string;
  (** [await file.read()] *)
  read : raises string (list Byte.byte)
}.

(* ===================================================================== *)
(** ** [process_audio_file], lines 23-63 *)
(* ===================================================================== *)

(** Lines 36-41: the formats asked of the decoder, in order, and what the
    last call gave. *)
Definition load (env : Environment) (name : string)
  : list (option string) * raises string (Audio env) :=
  match from_file env name None with
  | inr audio => ([None], inr audio)
  | inl _ => ([None; Some "m4a"], from_file env name (Some "m4a"))
  end.

(** Line 29: the file is created empty under the name with [".m4a"] after
    it, or nothing is created and the call raises. *)
Definition named_temporary_file (env : Environment) : io string :=
  fun fs =>
    match tempfile_error env with
    | Some message => (inl {| by_call := Tempfile; str_e := message |}, fs)
    | None => (inr (temp_name env +:+ ".m4a"),
               <[temp_name env +:+ ".m4a" := []]> fs)
    end.

(** Lines 32-33: the content is in the file after [flush], or one of the
    two calls raises with the file holding what had reached it. *)
Definition write_and_flush (env : Environment) (name : string)
    (content : list Byte.byte) : io unit :=
  fun fs =>
    match write_error env with
    | Some (message, partial) =>
        (inl {| by_call := Write; str_e := message |}, <[name := partial]> fs)
    | None => (inr tt, <[name := content]> fs)
    end.

(** Lines 48-56: the waveform is written at [wav_path], or the call
    raises. *)
Definition export_wav (env : Environment) (audio : Audio env)
    (wav_path : string) : io unit :=
  fun fs =>
    match export env audio wav_path with
    | inl message => (inl {| by_call := Exporter; str_e := message |}, fs)
    | inr data => (inr tt, <[wav_path := data]> fs)
    end.

(** Lines 29-59, the body of the [try]. *)
Definition convert (env : Environment) (file : UploadFile) : io string :=
  run name <~ named_temporary_file env ;;
  run content <~ lift Upload (read file) ;;
  run _ <~ write_and_flush env name content ;;
  run audio <~ lift Decoder (snd (load env name)) ;;
  run audio <~ lift Normalizer (normalize env audio) ;;
  let wav_path := name +:+ ".wav" in
  run _ <~ export_wav env audio wav_path ;;
  ret wav_path.

(** Lines 61-63. *)
Definition processing_error (e : raised) : exception :=
  Http {| status_code := 400;
          detail := "Error processing audio: " +:+ str_e e |}.

Definition process_audio_file (env : Environment) (file : UploadFile) (fs : files)
  : raises exception string * files :=
  match convert env file fs with
  | (inl e, fs1) => (inl (processing_error e), fs1)
  | (inr wav_path, fs1) => (inr wav_path, fs1)
  end.

(* ===================================================================== *)
(** ** [transcribe_audio], lines 65-126 *)
(* ===================================================================== *)

(** How a generator driven to its end stops. *)
Inductive ending :=
| Exhausted
| Raised (e : HTTPException).

(** A generator driven to its end: what it yielded, and how it stopped. *)
Record stream := { yielded : list string; stopped : ending }.

(** The dictionaries serialized by the generator, lines 94-115: one per
    segment the loop keeps, then the completion message unless the engine
    failed. *)
Definition records (t : transcription) : list dict :=
  snd (for_loop initial (segments t)) ++
  match failure t with
  | None => [completion]
  | Some _ => []
  end.

(** Lines 111 and 115: [json.dumps(...) + "\n"]. *)
Definition line (env : Environment) (d : dict) : string :=
  json_dumps (float_repr env) d +:+ LF.

(** Lines 117-119. *)
Definition transcription_error (message : string) : HTTPException :=
  {| status_code := 500; detail := "Transcription error: " +:+ message |}.

Definition transcribe_audio (env : Environment) (file_path : string) (fs : files)
  : stream * files :=
  let t := model_transcribe env file_path in
  ({| yielded := map (line env) (records t);
      stopped := match failure t with
                 | None => Exhausted
                 | Some message => Raised (transcription_error message)
                 end |},
   cleanup fs file_path).

(* ===================================================================== *)
(** ** The endpoint, lines 128-153 *)
(* ===================================================================== *)

(** Line 139. *)
Definition frame (transcript : string) : string :=
  "data: " +:+ transcript +:+ LF +:+ LF.

(** Lines 137-139. *)
Definition event_generator (s : stream) : stream :=
  {| yielded := map frame (yielded s); stopped := stopped s |}.

Inductive response :=
| StreamingResponse (body : stream) (media_type : string)
                    (headers : list (string * string))
| ErrorResponse (e : HTTPException).

(** The response with its stream driven to the end, and the temporary
    directory afterwards. *)
Definition transcribe (env : Environment) (file : UploadFile) (fs : files)
  : response * files :=
  match process_audio_file env file fs with
  | (inr file_path, fs1) =>
      let (s, fs2) := transcribe_audio env file_path fs1 in
      (StreamingResponse (event_generator s) "text/event-stream"
         [("Cache-Control", "no-cache"); ("Connection", "keep-alive")],
       fs2)
  | (inl (Http e), fs1) => (ErrorResponse e, fs1)
  | (inl (LibraryError message), fs1) =>
      (ErrorResponse {| status_code := 500; detail := message |}, fs1)
  end.

(** The events a client receives. *)
Definition sse_events (r : response) : list string :=
  match r with
  | StreamingResponse body _ _ => yielded body
  | ErrorResponse _ => []
  end.

(* ===================================================================== *)
(** ** Reading the output *)
(* ===================================================================== *)

(** The record is the completion message. *)
Definition is_complete (d : dict) : bool :=
  match get d "complete" with
  | Some (Bool true) => true
  | _ => false
  end.

(** The speaker labels of a run of records, in order. *)
Definition speakers (ds : list dict) : list (option value) :=
  map (fun d => get d "speaker") ds.

(** The [end] of the last record of [ds], or [before] when there is none. *)
Definition end_of_last (before : float) (ds : list dict) : float :=
  match last ds with
  | Some d => match get d "end" with Some (Float f) => f | _ => before end
  | None => before
  end.

(** The segments the loop keeps. *)
Definition kept (segment : Segment) : bool := truthy (strip (text segment)).

(** Both decoding attempts of [load] fail. *)
Definition both_attempts_fail (env : Environment) (name : string) : bool :=
  match from_file env name None, from_file env name (Some "m4a") with
  | inl _, inl _ => true
  | _, _ => false
  end.

(* ===================================================================== *)
(** ** The state machine as the specification words it *)
(* ===================================================================== *)

(** Section 3 of the specification: [enum{A, B}] and the attribution
    state. *)
Inductive Speaker := A | B.

Record AttributionState := {
  currentSpeaker : Speaker;
  lastSegmentEndTime : float
}.

(** Section 4.3: the seed of the state. *)
Definition spec_seed : AttributionState :=
  {| currentSpeaker := A; lastSegmentEndTime := 0%float |}.

(** Section 4.3: "flip [currentSpeaker] (A<->B)". *)
Definition spec_flip (speaker : Speaker) : Speaker :=
  match speaker with
  | A => B
  | B => A
  end.

(** Section 4.3, the three sentences of the algorithm that the claim
    quotes: flip on a gap above half a second, label the segment, move the
    end time to the end of the segment. *)
Definition spec_step (st : AttributionState) (segment : Segment)
  : AttributionState * Speaker :=
  let speaker :=
    if (0.5 <? start segment - lastSegmentEndTime st)%float
    then spec_flip (currentSpeaker st)
    else currentSpeaker st in
  ({| currentSpeaker := speaker; lastSegmentEndTime := end_ segment |}, speaker).

Fixpoint spec_run (st : AttributionState) (segments : list Segment)
  : AttributionState * list Speaker :=
  match segments with
  | [] => (st, [])
  | segment :: rest =>
      let (st1, label) := spec_step st segment in
      let (st2, labels) := spec_run st1 rest in
      (st2, label :: labels)
  end.

(** How the code writes the two speakers: A is ["Speaker 1"], B is
    ["Speaker 2"]. *)
Definition written (speaker : Speaker) : string :=
  match speaker with
  | A => "Speaker 1"
  | B => "Speaker 2"
  end.

(** The locals of the loop that stand for a state of the machine. *)
Definition locals_of (st : AttributionState) : locals :=
  {| current_speaker := written (currentSpeaker st);
     last_end_time := lastSegmentEndTime st |}.

(* ===================================================================== *)
(** ** Concrete inputs *)
(* ===================================================================== *)

Definition segment (a b : float) (t : string) : Segment :=
  {| start := a; end_ := b; text := t |}.

(** The four segments of section 8 of the specification. *)
Definition four_segments : list Segment :=
  [ segment 0.0 0.2 "one"; segment 0.3 0.4 "two";
    segment 1.2 1.25 "three"; segment 1.3 1.5 "four" ]%float.

(** A segment of blanks followed by speech. *)
Definition blank_then_speech : list Segment :=
  [ segment 0.0 1.0 "  "; segment 1.2 2.0 "hi" ]%float.

(** Speech, a blank segment after a long pause, speech again. *)
Definition speech_blank_speech : list Segment :=
  [ segment 0.0 0.2 "a"; segment 1.0 1.1 " "; segment 1.2 1.4 "b" ]%float.

Definition padded : Segment := segment 0.0 1.0 " hi"%string.

Definition an_upload : UploadFile :=
  {| filename := "talk.mp3"; read := inr [] |}.

(** An environment over a one-point audio type, from what the decoder,
    the exporter and the engine do. *)
Definition environment
    (decoder : option string -> raises string unit)
    (exporter : raises string (list Byte.byte))
    (engine : transcription) : Environment :=
  {| Audio := unit;
     float_repr := fun _ => "0.0";
     temp_name := "/tmp/tmpk3x9";
     tempfile_error := None;
     write_error := None;
     from_file := fun _ format => decoder format;
     normalize := fun audio => inr audio;
     export := fun _ _ => exporter;
     model_transcribe := fun _ => engine |}.

(** Neither decoding attempt works. *)
Definition undecodable : Environment :=
  environment
    (fun format => match format with
                   | None => inl "auto-detection failed"
                   | Some _ => inl "not an m4a file"
                   end)
    (inr [])
    {| segments := four_segments; failure := None |}.

(** Only the attempt with the format hint works. *)
Definition needs_hint : Environment :=
  environment
    (fun format => match format with
                   | None => inl "auto-detection failed"
                   | Some _ => inr tt
                   end)
    (inr [])
    {| segments := four_segments; failure := None |}.

(** Decoding works at once, the export fails. *)
Definition export_fails : Environment :=
  environment (fun _ => inr tt) (inl "encoder failed")
    {| segments := four_segments; failure := None |}.

(** The engine fails after its second segment. *)
Definition engine_fails : Environment :=
  environment (fun _ => inr tt) (inr [])
    {| segments := firstn 2 four_segments; failure := Some "out of memory" |}.

(** The engine finds no speech. *)
Definition silent : Environment :=
  environment (fun _ => inr tt) (inr [])
    {| segments := []; failure := None |}.


(* ===================================================================== *)
(** ** The two temporary files and the ways out of [convert] *)
(* ===================================================================== *)

(** Line 29: where the upload is written. *)
Definition upload_path (env : Environment) : string := temp_name env +:+ ".m4a".

(** Line 47: where the waveform is written. *)
Definition wav_path_of (env : Environment) : string := upload_path env +:+ ".wav".

(** Every way out of [convert]: one of the six calls raises, each after
    those before it have worked, or all of them work. *)
Inductive converts (env : Environment) (file : UploadFile) (fs : files)
  : raises raised string * files -> Prop :=
| tempfile_raised message :
    tempfile_error env = Some message ->
    converts env file fs (inl {| by_call := Tempfile; str_e := message |}, fs)
| read_raised message :
    tempfile_error env = None ->
    read file = inl message ->
    converts env file fs
      (inl {| by_call := Upload; str_e := message |},
       <[upload_path env := []]> fs)
| write_raised content message partial :
    tempfile_error env = None ->
    read file = inr content ->
    write_error env = Some (message, partial) ->
    converts env file fs
      (inl {| by_call := Write; str_e := message |},
       <[upload_path env := partial]> fs)
| load_raised content message :
    tempfile_error env = None ->
    read file = inr content ->
    write_error env = None ->
    snd (load env (upload_path env)) = inl message ->
    converts env file fs
      (inl {| by_call := Decoder; str_e := message |},
       <[upload_path env := content]> fs)
| normalize_raised content audio message :
    tempfile_error env = None ->
    read file = inr content ->
    write_error env = None ->
    snd (load env (upload_path env)) = inr audio ->
    normalize env audio = inl message ->
    converts env file fs
      (inl {| by_call := Normalizer; str_e := message |},
       <[upload_path env := content]> fs)
| export_raised content audio normalized message :
    tempfile_error env = None ->
    read file = inr content ->
    write_error env = None ->
    snd (load env (upload_path env)) = inr audio ->
    normalize env audio = inr normalized ->
    export env normalized (wav_path_of env) = inl message ->
    converts env file fs
      (inl {| by_call := Exporter; str_e := message |},
       <[upload_path env := content]> fs)
| converted content audio normalized data :
    tempfile_error env = None ->
    read file = inr content ->
    write_error env = None ->
    snd (load env (upload_path env)) = inr audio ->
    normalize env audio = inr normalized ->
    export env normalized (wav_path_of env) = inr data ->
    converts env file fs
      (inr (wav_path_of env),
       <[wav_path_of env := data]>
         (<[upload_path env := content]> fs)).

(** The decoder is reached and both its attempts raise. *)
Definition decoding_fails (env : Environment) (file : UploadFile) : Prop :=
  tempfile_error env = None /\
  (exists content, read file = inr content) /\
  write_error env = None /\
  both_attempts_fail env (upload_path env) = true.

(* ===================================================================== *)
(** ** Reading strings *)
(* ===================================================================== *)

(** Printable ASCII: space to tilde. *)
Definition printable (c : ascii) : bool :=
  let n := N_of_ascii c in ((32 <=? n) && (n <=? 126))%N.

Fixpoint all_printable (s : string) : bool :=
  match s with
  | EmptyString => true
  | String c rest => printable c && all_printable rest
  end.

Definition starts_with_space (s : string) : bool :=
  match s with
  | EmptyString => false
  | String c _ => isspace c
  end.

Fixpoint ends_with_space (s : string) : bool :=
  match s with
  | EmptyString => false
  | String c rest =>
      match rest with
      | EmptyString => isspace c
      | String _ _ => ends_with_space rest
      end
  end.

(** One of the two labels of line 97. *)
Definition is_label (speaker : string) : bool :=
  String.eqb speaker "Speaker 1" || String.eqb speaker "Speaker 2".

(* ===================================================================== *)
(** * Properties *)
(* ===================================================================== *)

(** ** Strings and paths *)

Lemma length_append (s t : string) :
  String.length (s +:+ t) = String.length s + String.length t.
Proof. induction s as [|c s IH]; simpl; [reflexivity | now rewrite IH]. Qed.

Lemma append_assoc (a b c : string) : (a +:+ b) +:+ c = a +:+ (b +:+ c).
Proof.
  induction a as [|x a IH]; [reflexivity |].
  change (String x ((a +:+ b) +:+ c) = String x (a +:+ (b +:+ c))).
  now f_equal.
Qed.

Lemma substring_all (s : string) : String.substring 0 (String.length s) s = s.
Proof. induction s as [|c s IH]; simpl; [reflexivity | now rewrite IH]. Qed.

Lemma substring_prefix (s t : string) :
  String.substring 0 (String.length s) (s +:+ t) = s.
Proof.
  induction s as [|c s IH]; simpl.
  - now destruct t.
  - now rewrite IH.
Qed.

Lemma substring_suffix (s t : string) :
  String.substring (String.length s) (String.length t) (s +:+ t) = t.
Proof. induction s as [|c s IH]; simpl; [apply substring_all | exact IH]. Qed.

(** [(s + ".wav")[:-4] == s] *)
Lemma drop_last4_wav (s : string) : drop_last4 (s +:+ ".wav") = s.
Proof.
  unfold drop_last4. rewrite length_append. simpl String.length.
  replace (String.length s + 4 - 4) with (String.length s) by lia.
  apply substring_prefix.
Qed.

Lemma endswith_append (s t : string) : endswith (s +:+ t) t = true.
Proof.
  unfold endswith. rewrite length_append.
  replace (String.length s + String.length t - String.length t)
    with (String.length s) by lia.
  rewrite substring_suffix, String.eqb_refl. simpl.
  apply Nat.leb_le. lia.
Qed.

Lemma append_wav_neq (s : string) : s <> s +:+ ".wav".
Proof.
  intros H. apply (f_equal String.length) in H.
  rewrite length_append in H. simpl in H. lia.
Qed.

Lemma truthy_true (s : string) : truthy s = true <-> s <> "".
Proof. destruct s; simpl; split; congruence. Qed.

(** ** The temporary directory *)

Lemma os_remove_present (fs : files) (path : string) (data : list Byte.byte) :
  fs !! path = Some data -> os_remove fs path = Some (delete path fs).
Proof. unfold os_remove. now intros ->. Qed.

(** With both files in place, [cleanup] removes exactly the two of them. *)
Lemma cleanup_both (fs : files) (name : string) (a b : list Byte.byte) :
  fs !! (name +:+ ".wav") = Some a ->
  fs !! name = Some b ->
  cleanup fs (name +:+ ".wav") = delete name (delete (name +:+ ".wav") fs).
Proof.
  intros Hwav Hname. unfold cleanup.
  rewrite (os_remove_present _ _ _ Hwav), drop_last4_wav.
  rewrite (os_remove_present _ name b); [reflexivity |].
  rewrite lookup_delete_ne; [exact Hname |].
  intros H. symmetry in H. exact (append_wav_neq _ H).
Qed.

(** [cleanup] never creates or rewrites a file. *)
Lemma cleanup_subseteq (fs : files) (file_path : string) :
  cleanup fs file_path ⊆ fs.
Proof.
  unfold cleanup, os_remove.
  destruct (fs !! file_path); [| reflexivity].
  destruct (delete file_path fs !! drop_last4 file_path).
  - etransitivity; apply delete_subseteq.
  - apply delete_subseteq.
Qed.

(** ** [process_audio_file] *)

(** The first decoding attempt is the auto-detecting one; the only other
    attempt is the one with the hint, made when the first fails. *)
Lemma load_attempts (env : Environment) (name : string) :
  match from_file env name None with
  | inr audio => load env name = ([None], inr audio)
  | inl _ => load env name = ([None; Some "m4a"], from_file env name (Some "m4a"))
  end.
Proof. unfold load. now destruct (from_file env name None). Qed.

Lemma load_fails_iff (env : Environment) (name : string) :
  (exists message, snd (load env name) = inl message) <->
  both_attempts_fail env name = true.
Proof.
  unfold load, both_attempts_fail.
  destruct (from_file env name None); simpl.
  - destruct (from_file env name (Some "m4a")); split; intros H;
      try discriminate; eauto.
    destruct H; discriminate.
  - split; [intros [? ?] |]; discriminate.
Qed.

(** [convert] ends in one of these seven ways. *)
Lemma convert_cases (env : Environment) (file : UploadFile) (fs : files) :
  converts env file fs (convert env file fs).
Proof.
  unfold convert, bind, lift, named_temporary_file, write_and_flush,
    export_wav, ret.
  destruct (tempfile_error env) as [m|] eqn:Htemp.
  { apply tempfile_raised; assumption. }
  destruct (read file) as [m|content] eqn:Hread.
  { apply read_raised; assumption. }
  destruct (write_error env) as [[m partial]|] eqn:Hwrite;
    rewrite insert_insert_eq.
  { eapply write_raised; eassumption. }
  destruct (snd (load env _)) as [m|audio] eqn:Hload.
  { eapply load_raised; eassumption. }
  destruct (normalize env audio) as [m|normalized] eqn:Hnorm.
  { eapply normalize_raised; eassumption. }
  destruct (export env normalized _) as [m|data] eqn:Hexp.
  { eapply export_raised; eassumption. }
  eapply converted; eassumption.
Qed.

(** ** The loop *)

Lemma loop_body_kept (st : locals) (s : Segment) :
  kept s = true ->
  loop_body st s =
    ({| current_speaker := pause_check st s; last_end_time := end_ s |},
     Some (result (pause_check st s) (strip (text s)) s)).
Proof. unfold kept, loop_body. now intros ->. Qed.

Lemma loop_body_dropped (st : locals) (s : Segment) :
  kept s = false ->
  loop_body st s =
    ({| current_speaker := pause_check st s; last_end_time := last_end_time st |},
     None).
Proof. unfold kept, loop_body. now intros ->. Qed.

Lemma for_loop_cons (st : locals) (s : Segment) (rest : list Segment) :
  for_loop st (s :: rest) =
    (fst (for_loop (fst (loop_body st s)) rest),
     match snd (loop_body st s) with
     | Some r => r :: snd (for_loop (fst (loop_body st s)) rest)
     | None => snd (for_loop (fst (loop_body st s)) rest)
     end).
Proof.
  simpl. destruct (loop_body st s) as [st1 out]. cbn [fst snd].
  now destruct (for_loop st1 rest).
Qed.

Ltac step_loop s :=
  rewrite for_loop_cons;
  let K := fresh "K" in
  destruct (kept s) eqn:K;
  [ rewrite (loop_body_kept _ _ K) | rewrite (loop_body_dropped _ _ K) ];
  cbn [fst snd].

(** Every record the loop yields is the [result] of a segment it keeps. *)
Lemma for_loop_results (st : locals) (segs : list Segment) :
  Forall (fun d => exists speaker s,
            In s segs /\ kept s = true /\ d = result speaker (strip (text s)) s)
         (snd (for_loop st segs)).
Proof.
  revert st. induction segs as [|s rest IH]; intros st; [constructor |].
  assert (Forall (fun d => exists speaker s',
             In s' (s :: rest) /\ kept s' = true /\
             d = result speaker (strip (text s')) s')
           (snd (for_loop (fst (loop_body st s)) rest))) as Hrest.
  { eapply Forall_impl; [apply IH |].
    intros d (speaker & s' & Hin & Hk & ->).
    exists speaker, s'. simpl. tauto. }
  rewrite for_loop_cons. destruct (kept s) eqn:K.
  - rewrite (loop_body_kept _ _ K) in *. cbn [fst snd] in *.
    constructor; [| exact Hrest].
    exists (pause_check st s), s. simpl. tauto.
  - rewrite (loop_body_dropped _ _ K) in *. exact Hrest.
Qed.

(** The kept segments, in order, give the text, start and end of the
    records. *)
Lemma for_loop_fields (st : locals) (segs : list Segment) :
  map (fun d => (get d "text", get d "start", get d "end"))
      (snd (for_loop st segs)) =
  map (fun s => (Some (Str (strip (text s))),
                 Some (Float (start s)), Some (Float (end_ s))))
      (List.filter kept segs).
Proof.
  revert st. induction segs as [|s rest IH]; intros st; [reflexivity |].
  step_loop s; simpl; rewrite K, ?IH; reflexivity.
Qed.

(** Below a record of the loop, the value taken for no record is not used. *)
Lemma end_of_last_cons (before other : float) (d : dict) (ds : list dict) :
  Forall (fun d => exists f, get d "end" = Some (Float f)) (d :: ds) ->
  end_of_last before (d :: ds) =
    match ds with
    | [] => end_of_last before [d]
    | _ :: _ => end_of_last other ds
    end.
Proof.
  intros H. unfold end_of_last. rewrite last_cons.
  destruct ds as [|d' ds']; [reflexivity |].
  destruct (last (d' :: ds')) as [l|] eqn:E.
  - assert (l ∈ d' :: ds') as Hl by (apply last_Some_elem_of; exact E).
    rewrite Forall_forall in H.
    destruct (H l) as [f ->]; [| reflexivity].
    apply list_elem_of_In. apply list_elem_of_In in Hl. now right.
  - apply last_None in E. discriminate.
Qed.

Lemma for_loop_has_end (st : locals) (segs : list Segment) :
  Forall (fun d => exists f, get d "end" = Some (Float f))
         (snd (for_loop st segs)).
Proof.
  eapply Forall_impl; [apply for_loop_results |].
  intros d (speaker & s & _ & _ & ->). now exists (end_ s).
Qed.

(** After the loop, [last_end_time] is the end of the last record yielded,
    and what it was before the loop when nothing was yielded. *)
Lemma for_loop_end_of_last (st : locals) (segs : list Segment) :
  last_end_time (fst (for_loop st segs)) =
  end_of_last (last_end_time st) (snd (for_loop st segs)).
Proof.
  revert st. induction segs as [|s rest IH]; intros st; [reflexivity |].
  pose proof (for_loop_has_end
                {| current_speaker := pause_check st s;
                   last_end_time := end_ s |} rest) as Hend.
  step_loop s; rewrite IH; cbn [last_end_time]; [| reflexivity].
  rewrite (end_of_last_cons _ (end_ s)).
  - now destruct (snd (for_loop _ rest)).
  - constructor; [now exists (end_ s) | exact Hend].
Qed.

Lemma for_loop_length (st : locals) (segs : list Segment) :
  length (snd (for_loop st segs)) = length (List.filter kept segs).
Proof.
  rewrite <- (length_map (fun d => (get d "text", get d "start", get d "end"))).
  now rewrite for_loop_fields, length_map.
Qed.

(** The pause check of the loop is the flip of the specification. *)
Lemma pause_check_written (st : AttributionState) (s : Segment) :
  pause_check (locals_of st) s =
    written (if (0.5 <? start s - lastSegmentEndTime st)%float
             then spec_flip (currentSpeaker st)
             else currentSpeaker st).
Proof.
  unfold pause_check, significant_pause, locals_of.
  cbn [current_speaker last_end_time].
  destruct (0.5 <? start s - lastSegmentEndTime st)%float; [| reflexivity].
  now destruct (currentSpeaker st).
Qed.

(** On segments of which none is dropped the loop goes through the states
    of the specification's machine and writes its labels. *)
Lemma for_loop_spec_run (st : AttributionState) (segs : list Segment) :
  forallb kept segs = true ->
  fst (for_loop (locals_of st) segs) = locals_of (fst (spec_run st segs)) /\
  speakers (snd (for_loop (locals_of st) segs)) =
    map (fun speaker => Some (Str (written speaker))) (snd (spec_run st segs)).
Proof.
  revert st. induction segs as [|s rest IH]; intros st H; [now split |].
  simpl in H. apply andb_prop in H as [K Hrest].
  rewrite for_loop_cons, (loop_body_kept _ _ K). cbn [fst snd].
  rewrite pause_check_written.
  simpl spec_run. unfold spec_step.
  set (speaker := if (0.5 <? start s - lastSegmentEndTime st)%float
                  then spec_flip (currentSpeaker st)
                  else currentSpeaker st).
  destruct (IH {| currentSpeaker := speaker; lastSegmentEndTime := end_ s |}
               Hrest) as [Hst Hlabels].
  unfold locals_of in Hst, Hlabels at 1.
  cbn [currentSpeaker lastSegmentEndTime] in Hst, Hlabels.
  destruct (spec_run _ rest) as [st2 labels]. cbn [fst snd] in *.
  split; [exact Hst |]. unfold speakers in *. simpl. now rewrite Hlabels.
Qed.

Lemma other_speaker_flips :
  other_speaker "Speaker 1" = "Speaker 2" /\
  other_speaker "Speaker 2" = "Speaker 1".
Proof. split; reflexivity. Qed.

(** ** The records of a run *)

(** The line of a segment record is not the line of the completion
    message: they differ at their third character. *)
Lemma line_result_neq (env : Environment) (speaker stripped : string)
    (s : Segment) :
  String.eqb (line env completion) (line env (result speaker stripped s)) = false.
Proof. reflexivity. Qed.

Lemma filter_none {A} (p : A -> bool) (l : list A) :
  Forall (fun x => p x = false) l -> List.filter p l = [].
Proof.
  induction 1 as [|x l Hx _ IH]; simpl; [reflexivity | now rewrite Hx].
Qed.

(** C1: when the engine does not fail, the generator of
    [transcribe_audio] runs out instead of raising; what it yields is the
    lines of some segment records, each with [complete] false, followed by
    the line of the completion message, which is therefore last; and
    exactly one of the lines yielded is that of the completion message. *)
Theorem completion_once_and_last (env : Environment) (file_path : string)
    (fs : files) :
  failure (model_transcribe env file_path) = None ->
  stopped (fst (transcribe_audio env file_path fs)) = Exhausted /\
  exists before : list dict,
    yielded (fst (transcribe_audio env file_path fs)) =
      (map (line env) before ++ [line env completion])%list /\
    Forall (fun d => get d "complete" = Some (Bool false) /\
                     keys d = ["speaker"; "text"; "start"; "end"; "complete"])
           before /\
    List.filter is_complete (before ++ [completion])%list = [completion] /\
    List.filter (String.eqb (line env completion))
                (yielded (fst (transcribe_audio env file_path fs))) =
      [line env completion].
Proof.
  intros Hok. unfold transcribe_audio, records. cbn [fst yielded stopped].
  rewrite Hok. split; [reflexivity |].
  set (segs := segments (model_transcribe env file_path)).
  pose proof (for_loop_results initial segs) as Hres.
  exists (snd (for_loop initial segs)).
  split; [now rewrite map_app |].
  split.
  { eapply Forall_impl; [exact Hres |].
    intros d (speaker & s & _ & _ & ->). now split. }
  split.
  - rewrite List.filter_app, filter_none; [reflexivity |].
    eapply Forall_impl; [exact Hres |].
    intros d (speaker & s & _ & _ & ->). reflexivity.
  - rewrite map_app, List.filter_app, filter_none.
    + rewrite app_nil_l. cbn [map List.filter]. now rewrite String.eqb_refl.
    + apply Forall_map. eapply Forall_impl; [exact Hres |].
      intros d (speaker & s & _ & _ & ->). apply line_result_neq.
Qed.

Lemma completion_once_and_last_witness :
  stopped (fst (transcribe_audio needs_hint "/tmp/tmpk3x9.m4a.wav" ∅)) = Exhausted /\
  exists before : list dict,
    yielded (fst (transcribe_audio needs_hint "/tmp/tmpk3x9.m4a.wav" ∅)) =
      (map (line needs_hint) before ++ [line needs_hint completion])%list /\
    Forall (fun d => get d "complete" = Some (Bool false) /\
                     keys d = ["speaker"; "text"; "start"; "end"; "complete"])
           before /\
    List.filter is_complete (before ++ [completion])%list = [completion] /\
    List.filter (String.eqb (line needs_hint completion))
                (yielded (fst (transcribe_audio needs_hint
                                 "/tmp/tmpk3x9.m4a.wav" ∅))) =
      [line needs_hint completion].
Proof.
  apply (completion_once_and_last needs_hint "/tmp/tmpk3x9.m4a.wav" ∅).
  reflexivity.
Defined.

(** ** Turn attribution *)

(** C2, counterexample: the machine of the specification labels every
    segment and moves the end time at every segment; the loop does neither
    for a segment of blanks.  After the blank segment [0.0-1.0] the loop
    still has end time [0], the machine has [1.0]; so for the speech at
    [1.2] the loop sees a pause and writes ["Speaker 2"], the machine sees
    none and gives A, which is written ["Speaker 1"]. *)
Lemma loop_departs_from_spec_run_on_blank :
  last_end_time (fst (for_loop initial (firstn 1 blank_then_speech))) = 0%float /\
  lastSegmentEndTime (fst (spec_run spec_seed (firstn 1 blank_then_speech))) =
    1%float /\
  speakers (snd (for_loop initial blank_then_speech)) = [Some (Str "Speaker 2")] /\
  snd (spec_run spec_seed blank_then_speech) = [A; A] /\
  fst (for_loop initial blank_then_speech) <>
    locals_of (fst (spec_run spec_seed blank_then_speech)).
Proof.
  repeat split; try reflexivity.
  intros H. apply (f_equal current_speaker) in H.
  vm_compute in H. discriminate H.
Qed.

(** C2, amended: the loop starts in the seed of the specification's
    machine, speaker A (written ["Speaker 1"]) and end time [0].  From any
    state of the machine, on segments whose stripped texts are all
    non-empty, the loop goes through the states of the machine (the speaker
    flipped, A to B and B to A, exactly when
    [start - lastSegmentEndTime > 0.5], then the end time set to the
    segment's end) and yields one record per segment, labelled with the
    speaker the machine gives; on the four segments of the specification
    the machine gives A, A, B, B and the records say 1, 1, 2, 2.  A segment
    whose stripped text is empty yields no record and leaves the end time
    alone, while the flip is applied to it as to any other. *)
Theorem attribution_follows_state_machine (st : AttributionState)
    (segs : list Segment) :
  forallb kept segs = true ->
  initial = locals_of spec_seed /\
  fst (for_loop (locals_of st) segs) = locals_of (fst (spec_run st segs)) /\
  speakers (snd (for_loop (locals_of st) segs)) =
    map (fun speaker => Some (Str (written speaker))) (snd (spec_run st segs)) /\
  length (snd (for_loop (locals_of st) segs)) = length segs /\
  snd (spec_run spec_seed four_segments) = [A; A; B; B] /\
  speakers (snd (for_loop initial four_segments)) =
    [ Some (Str "Speaker 1"); Some (Str "Speaker 1");
      Some (Str "Speaker 2"); Some (Str "Speaker 2") ] /\
  (forall blank : Segment,
     truthy (strip (text blank)) = false ->
     loop_body (locals_of st) blank =
       (locals_of
          {| currentSpeaker :=
               if (0.5 <? start blank - lastSegmentEndTime st)%float
               then spec_flip (currentSpeaker st)
               else currentSpeaker st;
             lastSegmentEndTime := lastSegmentEndTime st |},
        None)).
Proof.
  intros H.
  destruct (for_loop_spec_run st segs H) as [Hst Hlabels].
  split; [reflexivity |]. split; [exact Hst |]. split; [exact Hlabels |].
  split.
  { rewrite for_loop_length. clear Hst Hlabels.
    induction segs as [|s rest IH]; [reflexivity |].
    simpl in H. apply andb_prop in H as [K Hrest].
    simpl. rewrite K. simpl. now rewrite IH. }
  split; [reflexivity |]. split; [reflexivity |].
  intros blank K. rewrite (loop_body_dropped _ _ K), pause_check_written.
  reflexivity.
Qed.

Lemma attribution_follows_state_machine_witness :
  fst (for_loop (locals_of {| currentSpeaker := B; lastSegmentEndTime := 0 |})
                four_segments) =
    locals_of (fst (spec_run {| currentSpeaker := B; lastSegmentEndTime := 0 |}
                             four_segments)) /\
  speakers (snd (for_loop (locals_of spec_seed) four_segments)) =
    map (fun speaker => Some (Str (written speaker)))
        (snd (spec_run spec_seed four_segments)).
Proof.
  split.
  - apply (attribution_follows_state_machine
             {| currentSpeaker := B; lastSegmentEndTime := 0 |} four_segments).
    reflexivity.
  - apply (attribution_follows_state_machine spec_seed four_segments).
    reflexivity.
Defined.

(** C6: a segment whose stripped text is empty yields nothing and leaves
    [last_end_time] as it was, so the pause check of the next segment
    measures from the same end time; and after any segments at all,
    [last_end_time] is the end of the last record yielded ([0] while none
    was), which is what the next pause is measured from. *)
Theorem dropped_segment_keeps_end_time (st : locals) (s : Segment) :
  truthy (strip (text s)) = false ->
  snd (loop_body st s) = None /\
  last_end_time (fst (loop_body st s)) = last_end_time st /\
  (forall next : Segment,
     significant_pause (fst (loop_body st s)) next =
       (0.5 <? start next - last_end_time st)%float) /\
  (forall (before : list Segment) (next : Segment),
     significant_pause (fst (for_loop initial before)) next =
       (0.5 <? start next - end_of_last 0 (snd (for_loop initial before)))%float).
Proof.
  intros K. rewrite (loop_body_dropped st s K). cbn [fst snd last_end_time].
  repeat split.
  intros before next. unfold significant_pause.
  now rewrite for_loop_end_of_last.
Qed.

Lemma dropped_segment_keeps_end_time_witness :
  snd (loop_body initial (segment 0.0 1.0 "  ")) = None /\
  last_end_time (fst (loop_body initial (segment 0.0 1.0 "  "))) =
    last_end_time initial /\
  (forall next : Segment,
     significant_pause (fst (loop_body initial (segment 0.0 1.0 "  "))) next =
       (0.5 <? start next - last_end_time initial)%float) /\
  (forall (before : list Segment) (next : Segment),
     significant_pause (fst (for_loop initial before)) next =
       (0.5 <? start next - end_of_last 0 (snd (for_loop initial before)))%float).
Proof.
  apply (dropped_segment_keeps_end_time initial (segment 0.0 1.0 "  ")).
  reflexivity.
Defined.

(** C8: a segment whose stripped text is empty yields nothing; the loop
    yields exactly one record per segment whose stripped text is not
    empty; and no record of a run, with or without an engine failure,
    carries the empty text. *)
Theorem empty_text_never_emitted (st : locals) (segs : list Segment)
    (t : transcription) :
  (forall s : Segment,
     truthy (strip (text s)) = false -> snd (loop_body st s) = None) /\
  length (snd (for_loop st segs)) = length (List.filter kept segs) /\
  Forall (fun d => exists stripped,
            get d "text" = Some (Str stripped) /\ stripped <> "")
         (snd (for_loop st segs)) /\
  Forall (fun d => get d "text" <> Some (Str "")) (records t).
Proof.
  split; [| split; [| split]].
  - intros s K. now rewrite (loop_body_dropped st s K).
  - apply for_loop_length.
  - eapply Forall_impl; [apply for_loop_results |].
    intros d (speaker & s & _ & K & ->).
    exists (strip (text s)). split; [reflexivity |].
    now apply truthy_true.
  - unfold records. apply Forall_app. split.
    + eapply Forall_impl; [apply for_loop_results |].
      intros d (speaker & s & _ & K & ->). cbn. intros [= H].
      apply truthy_true in K. contradiction.
    + destruct (failure t); repeat constructor. discriminate.
Qed.

Lemma empty_text_never_emitted_witness :
  snd (loop_body initial (segment 1.0 1.1 " ")) = None.
Proof.
  apply (proj1 (empty_text_never_emitted initial []
                  {| segments := []; failure := None |})).
  reflexivity.
Defined.

(** C9: the pause check comes first, so a segment whose stripped text is
    empty and which starts more than half a second after [last_end_time]
    yields nothing and still changes the speaker; with such a segment
    between two spoken ones the second is labelled ["Speaker 1"], without
    it ["Speaker 2"]. *)
Theorem dropped_segment_still_flips (st : locals) (s : Segment) :
  truthy (strip (text s)) = false ->
  (0.5 <? start s - last_end_time st)%float = true ->
  snd (loop_body st s) = None /\
  current_speaker (fst (loop_body st s)) = other_speaker (current_speaker st) /\
  last_end_time (fst (loop_body st s)) = last_end_time st /\
  speakers (snd (for_loop initial speech_blank_speech)) =
    [Some (Str "Speaker 1"); Some (Str "Speaker 1")] /\
  speakers (snd (for_loop initial (List.filter kept speech_blank_speech))) =
    [Some (Str "Speaker 1"); Some (Str "Speaker 2")].
Proof.
  intros K Hpause. rewrite (loop_body_dropped st s K).
  cbn [fst snd current_speaker last_end_time].
  unfold pause_check, significant_pause. rewrite Hpause.
  repeat split.
Qed.

Lemma dropped_segment_still_flips_witness :
  snd (loop_body initial (segment 1.0 1.1 " ")) = None /\
  current_speaker (fst (loop_body initial (segment 1.0 1.1 " "))) =
    other_speaker (current_speaker initial) /\
  last_end_time (fst (loop_body initial (segment 1.0 1.1 " "))) =
    last_end_time initial /\
  speakers (snd (for_loop initial speech_blank_speech)) =
    [Some (Str "Speaker 1"); Some (Str "Speaker 1")] /\
  speakers (snd (for_loop initial (List.filter kept speech_blank_speech))) =
    [Some (Str "Speaker 1"); Some (Str "Speaker 2")].
Proof.
  apply (dropped_segment_still_flips initial (segment 1.0 1.1 " "));
    reflexivity.
Defined.

(** C4, counterexample: the engine's text [" hi"] is sent as ["hi"]. *)
Lemma emitted_text_is_not_the_engine_text :
  text padded = " hi" /\
  snd (loop_body initial padded) = Some (result "Speaker 1" "hi" padded) /\
  get (result "Speaker 1" "hi" padded) "text" = Some (Str "hi") /\
  get (result "Speaker 1" "hi" padded) "text" <> Some (Str (text padded)).
Proof. repeat split. discriminate. Qed.

(** C4, amended: a segment whose stripped text is not empty yields one
    record; its [start] and [end] are the segment's, its [text] is the
    segment's text stripped of leading and trailing whitespace (the
    segment's text itself when stripping changes nothing), and besides
    these it has [speaker] and [complete], which is false.  Over a whole
    run the texts, starts and ends of the records are those of the kept
    segments, in order. *)
Theorem emitted_record_fields (st : locals) (s : Segment) :
  truthy (strip (text s)) = true ->
  (exists d : dict,
     snd (loop_body st s) = Some d /\
     get d "start" = Some (Float (start s)) /\
     get d "end" = Some (Float (end_ s)) /\
     get d "text" = Some (Str (strip (text s))) /\
     (strip (text s) = text s -> get d "text" = Some (Str (text s))) /\
     keys d = ["speaker"; "text"; "start"; "end"; "complete"] /\
     get d "speaker" = Some (Str (pause_check st s)) /\
     get d "complete" = Some (Bool false)) /\
  (forall segs : list Segment,
     map (fun d => (get d "text", get d "start", get d "end"))
         (snd (for_loop st segs)) =
     map (fun s => (Some (Str (strip (text s))),
                    Some (Float (start s)), Some (Float (end_ s))))
         (List.filter kept segs)).
Proof.
  intros K. split; [| apply for_loop_fields].
  rewrite (loop_body_kept st s K). eexists. split; [reflexivity |].
  repeat split. cbn. now intros ->.
Qed.

Lemma emitted_record_fields_witness :
  exists d : dict,
    snd (loop_body initial padded) = Some d /\
    get d "start" = Some (Float (start padded)) /\
    get d "end" = Some (Float (end_ padded)) /\
    get d "text" = Some (Str (strip (text padded))) /\
    (strip (text padded) = text padded -> get d "text" = Some (Str (text padded))) /\
    keys d = ["speaker"; "text"; "start"; "end"; "complete"] /\
    get d "speaker" = Some (Str (pause_check initial padded)) /\
    get d "complete" = Some (Bool false).
Proof.
  apply (proj1 (emitted_record_fields initial padded eq_refl)).
Defined.

(** ** The endpoint *)

Ltac convert_ways env file fs :=
  destruct (convert_cases env file fs) as
    [ m' Ht'
    | m' Ht' Hr'
    | content' m' partial' Ht' Hr' Hw'
    | content' m' Ht' Hr' Hw' Hl'
    | content' audio' m' Ht' Hr' Hw' Hl' Hn'
    | content' audio' normalized' m' Ht' Hr' Hw' Hl' Hn' He'
    | content' audio' normalized' data' Ht' Hr' Hw' Hl' Hn' He' ].

Lemma process_audio_file_ok (env : Environment) (file : UploadFile) (fs : files)
    (file_path : string) (fs1 : files) :
  process_audio_file env file fs = (inr file_path, fs1) ->
  exists content data,
    read file = inr content /\
    file_path = wav_path_of env /\
    fs1 = <[wav_path_of env := data]> (<[upload_path env := content]> fs).
Proof.
  unfold process_audio_file. intros H.
  convert_ways env file fs; try discriminate H.
  injection H as <- <-. now exists content', data'.
Qed.


(** Once the waveform was written, the response is the stream of the
    generator and the directory is the one its [finally] leaves. *)
Lemma transcribe_streams (env : Environment) (file : UploadFile) (fs : files)
    (file_path : string) (fs1 : files) :
  process_audio_file env file fs = (inr file_path, fs1) ->
  transcribe env file fs =
    (StreamingResponse
       (event_generator (fst (transcribe_audio env file_path fs1)))
       "text/event-stream"
       [("Cache-Control", "no-cache"); ("Connection", "keep-alive")],
     cleanup fs1 file_path).
Proof. unfold transcribe. now intros ->. Qed.

(** What [convert] raises is answered with the 400 of lines 61-63, and the
    directory is left as [convert] left it. *)
Lemma transcribe_refuses (env : Environment) (file : UploadFile) (fs : files)
    (caught : raised) :
  fst (convert env file fs) = inl caught ->
  transcribe env file fs =
    (ErrorResponse {| status_code := 400;
                      detail := "Error processing audio: " +:+ str_e caught |},
     snd (convert env file fs)).
Proof.
  unfold transcribe, process_audio_file.
  destruct (convert env file fs) as [[e|path] fs1]; cbn [fst snd].
  - now intros [= ->].
  - discriminate.
Qed.


Lemma cleanup_after_conversion (env : Environment) (fs : files)
    (content data : list Byte.byte) :
  cleanup (<[wav_path_of env := data]> (<[upload_path env := content]> fs))
          (wav_path_of env) =
  delete (upload_path env) (delete (wav_path_of env) fs).
Proof.
  unfold wav_path_of.
  pose proof (append_wav_neq (upload_path env)) as Hne.
  rewrite (cleanup_both _ (upload_path env) data content).
  - rewrite delete_insert_eq.
    rewrite delete_insert_ne by congruence.
    now rewrite delete_insert_eq.
  - apply lookup_insert_eq.
  - rewrite lookup_insert_ne by congruence.
    apply lookup_insert_eq.
Qed.

Lemma convert_succeeds (env : Environment) (file : UploadFile) (fs : files)
    (content : list Byte.byte) (audio normalized : Audio env)
    (data : list Byte.byte) :
  tempfile_error env = None ->
  read file = inr content ->
  write_error env = None ->
  snd (load env (upload_path env)) = inr audio ->
  normalize env audio = inr normalized ->
  export env normalized (wav_path_of env) = inr data ->
  convert env file fs =
    (inr (wav_path_of env),
     <[wav_path_of env := data]> (<[upload_path env := content]> fs)).
Proof.
  intros Ht Hr Hw Hl Hn He.
  convert_ways env file fs; congruence.
Qed.

Lemma process_audio_file_succeeds (env : Environment) (file : UploadFile)
    (fs : files) (content : list Byte.byte) (audio normalized : Audio env)
    (data : list Byte.byte) :
  tempfile_error env = None ->
  read file = inr content ->
  write_error env = None ->
  snd (load env (upload_path env)) = inr audio ->
  normalize env audio = inr normalized ->
  export env normalized (wav_path_of env) = inr data ->
  process_audio_file env file fs =
    (inr (wav_path_of env),
     <[wav_path_of env := data]> (<[upload_path env := content]> fs)).
Proof.
  intros Ht Hr Hw Hl Hn He. unfold process_audio_file.
  now rewrite (convert_succeeds _ _ _ _ _ _ _ Ht Hr Hw Hl Hn He).
Qed.

(** C3, the code at the failing input: neither decoding attempt works, the
    request is answered with the 400, and the upload is still in the
    temporary directory afterwards: nothing on this path removes it. *)
Lemma upload_left_behind_when_undecodable :
  fst (transcribe undecodable an_upload ∅) =
    ErrorResponse {| status_code := 400;
                     detail := "Error processing audio: not an m4a file" |} /\
  upload_path undecodable = "/tmp/tmpk3x9.m4a" /\
  snd (transcribe undecodable an_upload ∅) !! "/tmp/tmpk3x9.m4a" = Some [] /\
  snd (transcribe undecodable an_upload ∅) !! "/tmp/tmpk3x9.m4a" <> None.
Proof.
  assert (snd (transcribe undecodable an_upload ∅) !! "/tmp/tmpk3x9.m4a"
          = Some []) as H.
  { unfold transcribe, process_audio_file, convert, bind, lift,
      named_temporary_file, write_and_flush, export_wav, ret.
    cbn. rewrite insert_insert_eq. apply lookup_insert_eq. }
  repeat split; try exact H. rewrite H. discriminate.
Qed.

(** X13: when [process_audio_file] has returned the path of the waveform,
    then whether the engine fails or not, after the stream has ended
    neither the upload nor the waveform is in the temporary directory, and
    every other file is as it was before the request; the removal is the
    [finally] of the generator, which encloses transcription, attribution
    and emission. *)
Theorem temporary_files_removed (env : Environment) (file : UploadFile)
    (fs : files) (file_path : string) (fs1 : files) :
  process_audio_file env file fs = (inr file_path, fs1) ->
  is_Some (fs1 !! upload_path env) /\
  is_Some (fs1 !! wav_path_of env) /\
  snd (transcribe env file fs) = snd (transcribe_audio env file_path fs1) /\
  snd (transcribe_audio env file_path fs1) = cleanup fs1 file_path /\
  snd (transcribe env file fs) !! upload_path env = None /\
  snd (transcribe env file fs) !! wav_path_of env = None /\
  snd (transcribe env file fs) =
    delete (upload_path env) (delete (wav_path_of env) fs).
Proof.
  intros H. rewrite (transcribe_streams _ _ _ _ _ H). cbn [snd].
  destruct (process_audio_file_ok _ _ _ _ _ H) as (content & data & _ & -> & ->).
  assert (upload_path env <> wav_path_of env) as Hne
    by apply append_wav_neq.
  split.
  { exists content. rewrite lookup_insert_ne by congruence.
    apply lookup_insert_eq. }
  split; [exists data; apply lookup_insert_eq |].
  split; [reflexivity |]. split; [reflexivity |].
  rewrite cleanup_after_conversion.
  split; [apply lookup_delete_eq |].
  split; [| reflexivity].
  rewrite lookup_delete_ne by congruence. apply lookup_delete_eq.
Qed.

Lemma temporary_files_removed_witness :
  stopped (fst (transcribe_audio engine_fails (wav_path_of engine_fails) ∅)) =
    Raised (transcription_error "out of memory") /\
  snd (transcribe engine_fails an_upload ∅) !! upload_path engine_fails = None /\
  snd (transcribe engine_fails an_upload ∅) !! wav_path_of engine_fails = None.
Proof.
  split; [reflexivity |].
  assert (process_audio_file engine_fails an_upload ∅ =
          (inr (wav_path_of engine_fails),
           <[wav_path_of engine_fails := []]>
             (<[upload_path engine_fails := []]> ∅))) as H.
  { unfold process_audio_file, convert, bind, lift, named_temporary_file,
      write_and_flush, export_wav, ret. cbn.
    now rewrite insert_insert_eq. }
  destruct (temporary_files_removed engine_fails an_upload ∅ _ _ H)
    as (_ & _ & _ & _ & Hupload & Hwav & _).
  exact (conj Hupload Hwav).
Defined.

Lemma convert_read_ok (env : Environment) (file : UploadFile) (fs : files)
    (content : list Byte.byte) :
  tempfile_error env = None ->
  read file = inr content ->
  write_error env = None ->
  snd (convert env file fs) !! upload_path env = Some content.
Proof.
  intros Ht Hr Hw.
  assert (upload_path env <> wav_path_of env) as Hne by apply append_wav_neq.
  convert_ways env file fs; try congruence;
    rewrite Hr in Hr'; injection Hr' as <-; cbn [snd];
    rewrite ?(lookup_insert_ne _ (wav_path_of env)) by congruence;
    apply lookup_insert_eq.
Qed.

Lemma convert_persists (env : Environment) (file : UploadFile) (fs : files) :
  tempfile_error env = None ->
  is_Some (snd (convert env file fs) !! upload_path env).
Proof.
  intros Ht.
  assert (upload_path env <> wav_path_of env) as Hne by apply append_wav_neq.
  convert_ways env file fs; try congruence; cbn [snd];
    rewrite ?(lookup_insert_ne _ (wav_path_of env)) by congruence;
    rewrite lookup_insert_eq; eauto.
Qed.

Lemma process_audio_file_files (env : Environment) (file : UploadFile)
    (fs : files) :
  snd (process_audio_file env file fs) = snd (convert env file fs).
Proof.
  unfold process_audio_file. now destruct (convert env file fs) as [[m|p] fs1].
Qed.

(** C10: the upload is written to the temporary name with [".m4a"] after
    it, whatever the upload is called: the file is there once it could be
    created, and holds the bytes of the upload once they were read and
    written, however the conversion ends after that; the waveform goes to
    that path with [".wav"] after it; dropping the last four characters of
    the waveform path gives the upload path back; and after a conversion
    that worked, the upload is at its path, the files created are these
    two, and [cleanup] removes these two and nothing else. *)
Theorem cleanup_removes_the_files_created (env : Environment)
    (file : UploadFile) (fs : files) :
  endswith (upload_path env) ".m4a" = true /\
  (forall other_name : string,
     process_audio_file env {| filename := other_name; read := read file |} fs =
     process_audio_file env file fs) /\
  (tempfile_error env = None ->
   is_Some (snd (process_audio_file env file fs) !! upload_path env)) /\
  (forall content : list Byte.byte,
     tempfile_error env = None ->
     read file = inr content ->
     write_error env = None ->
     snd (process_audio_file env file fs) !! upload_path env = Some content) /\
  wav_path_of env = upload_path env +:+ ".wav" /\
  drop_last4 (wav_path_of env) = upload_path env /\
  (forall (file_path : string) (fs1 : files),
     process_audio_file env file fs = (inr file_path, fs1) ->
     file_path = wav_path_of env /\
     drop_last4 file_path = upload_path env /\
     (exists content : list Byte.byte,
        read file = inr content /\ fs1 !! upload_path env = Some content) /\
     dom fs1 = {[upload_path env; wav_path_of env]} ∪ dom fs /\
     cleanup fs1 file_path =
       delete (drop_last4 file_path) (delete file_path fs1) /\
     dom fs1 ∖ dom (cleanup fs1 file_path) =
       {[file_path; drop_last4 file_path]}).
Proof.
  split; [apply endswith_append |].
  split; [now destruct file |].
  split; [intros Ht; rewrite process_audio_file_files;
          now apply convert_persists |].
  split; [intros content Ht Hr Hw; rewrite process_audio_file_files;
          now apply convert_read_ok |].
  split; [reflexivity |].
  split; [apply drop_last4_wav |].
  intros file_path fs1 H.
  destruct (process_audio_file_ok _ _ _ _ _ H)
    as (content & data & Hread & -> & ->).
  assert (drop_last4 (wav_path_of env) = upload_path env) as Hdrop
    by apply drop_last4_wav.
  assert (upload_path env <> wav_path_of env) as Hne by apply append_wav_neq.
  rewrite Hdrop.
  split; [reflexivity |]. split; [reflexivity |].
  split.
  { exists content. split; [exact Hread |].
    rewrite lookup_insert_ne by congruence. apply lookup_insert_eq. }
  split; [rewrite !dom_insert_L; set_solver |].
  assert (cleanup (<[wav_path_of env:=data]> (<[upload_path env:=content]> fs))
                  (wav_path_of env) =
          delete (upload_path env)
            (delete (wav_path_of env)
               (<[wav_path_of env:=data]> (<[upload_path env:=content]> fs))))
    as Hclean.
  { unfold wav_path_of. apply (cleanup_both _ _ data content).
    - apply lookup_insert_eq.
    - rewrite lookup_insert_ne by (unfold wav_path_of in Hne; congruence).
      apply lookup_insert_eq. }
  split; [exact Hclean |].
  rewrite Hclean, !dom_delete_L, !dom_insert_L.
  clear H Hclean Hdrop Hread. apply set_eq. intros p.
  destruct (decide (p = wav_path_of env)) as [->|Hwav]; [set_solver |].
  destruct (decide (p = upload_path env)) as [->|Hupload]; set_solver.
Qed.

Lemma cleanup_removes_the_files_created_witness :
  snd (process_audio_file needs_hint an_upload ∅) !! upload_path needs_hint =
    Some [] /\
  drop_last4 "/tmp/tmpk3x9.m4a.wav" = "/tmp/tmpk3x9.m4a".
Proof.
  destruct (cleanup_removes_the_files_created needs_hint an_upload ∅)
    as (_ & _ & _ & Hcontent & _ & Hdrop & _).
  split; [apply Hcontent; reflexivity | exact Hdrop].
Defined.

(** The decoder is the call that raises exactly when it is reached and
    both its attempts raise, and what it raises then is what the attempt
    with the hint raised. *)
Lemma convert_decoder_raises (env : Environment) (file : UploadFile)
    (fs : files) (message : string) :
  fst (convert env file fs) = inl {| by_call := Decoder; str_e := message |} <->
  decoding_fails env file /\
  from_file env (upload_path env) (Some "m4a") = inl message.
Proof.
  unfold decoding_fails, both_attempts_fail. split.
  - intros H. convert_ways env file fs; cbn [fst] in H; try discriminate H.
    injection H as ->. unfold load in Hl'.
    destruct (from_file env (upload_path env) None) as [first|audio];
      [| discriminate Hl']. cbn [snd] in Hl'. rewrite Hl'. eauto 6.
  - intros ((Ht & (content & Hr) & Hw & Hboth) & Hretry).
    assert (snd (load env (upload_path env)) = inl message) as Hl.
    { unfold load.
      destruct (from_file env (upload_path env) None); [| discriminate Hboth].
      exact Hretry. }
    convert_ways env file fs; cbn [fst]; congruence.
Qed.

(** C5: decoding is tried with auto-detection first and, when that raises,
    once more with the format hint ["m4a"], and not again.  The decoder is
    reached and both attempts raise if and only if the request is answered
    with the 400 whose detail is ["Error processing audio: "] followed by
    the message the decoder raised, which is the message of the second
    attempt; and then no event is sent: the answer is an error response,
    not a stream. *)
Theorem decoding_retry_and_bad_request (env : Environment) (file : UploadFile)
    (fs : files) :
  match from_file env (upload_path env) None with
  | inr audio => load env (upload_path env) = ([None], inr audio)
  | inl _ =>
      load env (upload_path env) =
        ([None; Some "m4a"], from_file env (upload_path env) (Some "m4a"))
  end /\
  (decoding_fails env file <->
   exists message : string,
     from_file env (upload_path env) (Some "m4a") = inl message /\
     fst (convert env file fs) =
       inl {| by_call := Decoder; str_e := message |} /\
     fst (transcribe env file fs) =
       ErrorResponse {| status_code := 400;
                        detail := "Error processing audio: " +:+ message |} /\
     sse_events (fst (transcribe env file fs)) = []).
Proof.
  split; [apply load_attempts |]. split.
  - intros Hfails.
    assert (exists message,
              from_file env (upload_path env) (Some "m4a") = inl message)
      as [message Hretry].
    { destruct Hfails as (_ & _ & _ & Hboth). unfold both_attempts_fail in Hboth.
      destruct (from_file env (upload_path env) None); [| discriminate Hboth].
      destruct (from_file env (upload_path env) (Some "m4a")) as [message|];
        [now exists message | discriminate Hboth]. }
    exists message. split; [exact Hretry |].
    assert (fst (convert env file fs) =
            inl {| by_call := Decoder; str_e := message |}) as Hc
      by (apply convert_decoder_raises; now split).
    split; [exact Hc |].
    rewrite (transcribe_refuses _ _ _ _ Hc). now split.
  - intros (message & Hretry & Hc & _).
    now apply convert_decoder_raises in Hc as [Hfails _].
Qed.

Lemma decoding_retry_and_bad_request_witness :
  exists message : string,
    from_file undecodable (upload_path undecodable) (Some "m4a") = inl message /\
    fst (convert undecodable an_upload ∅) =
      inl {| by_call := Decoder; str_e := message |} /\
    fst (transcribe undecodable an_upload ∅) =
      ErrorResponse {| status_code := 400;
                       detail := "Error processing audio: " +:+ message |} /\
    sse_events (fst (transcribe undecodable an_upload ∅)) = [].
Proof.
  destruct (decoding_retry_and_bad_request undecodable an_upload ∅)
    as (_ & Hiff).
  apply Hiff. unfold decoding_fails.
  split; [reflexivity |]. split; [now exists [] |]. now split.
Defined.

(** C7, counterexample: with no speech found the stream is the completion
    event alone, and it ends in three line feeds, the one line 115 puts
    after the JSON and the two of line 139; it is not the JSON followed by
    two line feeds. *)
Lemma completion_event_ends_in_three_line_feeds :
  sse_events (fst (transcribe silent an_upload ∅)) =
    [ "data: {" +:+ DQUOTE +:+ "complete" +:+ DQUOTE +:+ ": true}"
      +:+ LF +:+ LF +:+ LF ] /\
  sse_events (fst (transcribe silent an_upload ∅)) <>
    [ "data: {" +:+ DQUOTE +:+ "complete" +:+ DQUOTE +:+ ": true}"
      +:+ LF +:+ LF ].
Proof.
  assert (sse_events (fst (transcribe silent an_upload ∅)) =
          [ "data: {" +:+ DQUOTE +:+ "complete" +:+ DQUOTE +:+ ": true}"
            +:+ LF +:+ LF +:+ LF ]) as H by reflexivity.
  split; [exact H |]. rewrite H. intros [= ].
Qed.

Lemma record_shapes (t : transcription) :
  Forall (fun d =>
            d = [("complete", Bool true)] \/
            exists (speaker stripped : string) (s : Segment),
              d = [ ("speaker", Str speaker); ("text", Str stripped);
                    ("start", Float (start s)); ("end", Float (end_ s));
                    ("complete", Bool false) ])
         (records t).
Proof.
  unfold records. apply Forall_app. split.
  - eapply Forall_impl; [apply for_loop_results |].
    intros d (speaker & s & _ & _ & ->). right.
    now exists speaker, (strip (text s)), s.
  - destruct (failure t); repeat constructor.
Qed.

(** C7, amended: when the conversion worked, the events of the response
    are, in order, one per record of the run, none merged and none moved:
    the event of a record is ["data: "], the [json.dumps] of the record and
    three line feeds.  Each record is either the completion message, whose
    JSON is [{"complete": true}], or a segment record, whose JSON has
    speaker, text, start, end and complete, which is false, in this
    order. *)
Theorem one_event_per_record_in_order (env : Environment) (file : UploadFile)
    (fs : files) (file_path : string) (fs1 : files) :
  process_audio_file env file fs = (inr file_path, fs1) ->
  sse_events (fst (transcribe env file fs)) =
    map (fun d => "data: " +:+ json_dumps (float_repr env) d
                  +:+ LF +:+ LF +:+ LF)
        (records (model_transcribe env file_path)) /\
  length (sse_events (fst (transcribe env file fs))) =
    length (records (model_transcribe env file_path)) /\
  (forall (i : nat) (d : dict),
     records (model_transcribe env file_path) !! i = Some d ->
     sse_events (fst (transcribe env file fs)) !! i =
       Some ("data: " +:+ json_dumps (float_repr env) d +:+ LF +:+ LF +:+ LF)) /\
  Forall (fun d =>
            d = [("complete", Bool true)] \/
            exists (speaker stripped : string) (s : Segment),
              d = [ ("speaker", Str speaker); ("text", Str stripped);
                    ("start", Float (start s)); ("end", Float (end_ s));
                    ("complete", Bool false) ])
         (records (model_transcribe env file_path)) /\
  json_dumps (float_repr env) [("complete", Bool true)] =
    "{" +:+ DQUOTE +:+ "complete" +:+ DQUOTE +:+ ": true}" /\
  (forall (speaker stripped : string) (s : Segment),
     json_dumps (float_repr env)
       [ ("speaker", Str speaker); ("text", Str stripped);
         ("start", Float (start s)); ("end", Float (end_ s));
         ("complete", Bool false) ] =
     "{" +:+ DQUOTE +:+ "speaker" +:+ DQUOTE +:+ ": " +:+ dumps_str speaker
     +:+ ", " +:+ DQUOTE +:+ "text" +:+ DQUOTE +:+ ": " +:+ dumps_str stripped
     +:+ ", " +:+ DQUOTE +:+ "start" +:+ DQUOTE +:+ ": "
     +:+ dumps_float (float_repr env) (start s)
     +:+ ", " +:+ DQUOTE +:+ "end" +:+ DQUOTE +:+ ": "
     +:+ dumps_float (float_repr env) (end_ s)
     +:+ ", " +:+ DQUOTE +:+ "complete" +:+ DQUOTE +:+ ": false}").
Proof.
  intros H. rewrite (transcribe_streams _ _ _ _ _ H).
  unfold transcribe_audio, event_generator. cbn [fst sse_events yielded].
  rewrite map_map.
  assert (forall d,
            frame (line env d) =
            "data: " +:+ json_dumps (float_repr env) d +:+ LF +:+ LF +:+ LF)
    as Hevent.
  { intros d. unfold frame, line. now rewrite append_assoc. }
  split; [apply map_ext; exact Hevent |].
  split; [now rewrite length_map |].
  split.
  { intros i d Hi. rewrite list_lookup_fmap, Hi. cbn. now rewrite Hevent. }
  split; [apply record_shapes |].
  split; [reflexivity |].
  intros speaker stripped s. unfold json_dumps. cbn [dumps_items dumps_value].
  rewrite !append_assoc. reflexivity.
Qed.

Lemma one_event_per_record_in_order_witness :
  length (sse_events (fst (transcribe needs_hint an_upload ∅))) = 5.
Proof.
  assert (process_audio_file needs_hint an_upload ∅ =
          (inr (wav_path_of needs_hint),
           <[wav_path_of needs_hint := []]>
             (<[upload_path needs_hint := []]> ∅))) as H.
  { unfold process_audio_file, convert, bind, lift, named_temporary_file,
      write_and_flush, export_wav, ret. cbn.
    now rewrite insert_insert_eq. }
  destruct (one_event_per_record_in_order needs_hint an_upload ∅ _ _ H)
    as (_ & Hlength & _).
  rewrite Hlength. reflexivity.
Defined.

(* ===================================================================== *)
(** * Further properties of the three functions *)
(* ===================================================================== *)

(** ** What the loop sends while the engine goes on *)

Lemma for_loop_app (st : locals) (a b : list Segment) :
  for_loop st (a ++ b) =
    (fst (for_loop (fst (for_loop st a)) b),
     (snd (for_loop st a) ++ snd (for_loop (fst (for_loop st a)) b))%list).
Proof.
  revert st. induction a as [|s a IH]; intros st.
  - simpl. now destruct (for_loop st b).
  - change ((s :: a) ++ b)%list with (s :: (a ++ b))%list.
    rewrite !for_loop_cons, IH. cbn [fst snd].
    now destruct (snd (loop_body st s)).
Qed.

(** X1: with the waveform written, the completion event is among the
    events of the response exactly when the engine did not fail; when it
    failed, the stream stops with the 500 of lines 117-119 after one event
    per kept segment the engine had produced. *)
Theorem completion_event_iff_engine_succeeds (env : Environment)
    (file : UploadFile) (fs : files) (file_path : string) (fs1 : files) :
  process_audio_file env file fs = (inr file_path, fs1) ->
  (In (frame (line env completion)) (sse_events (fst (transcribe env file fs)))
   <-> failure (model_transcribe env file_path) = None) /\
  (forall message : string,
     failure (model_transcribe env file_path) = Some message ->
     exists body : stream,
       fst (transcribe env file fs) =
         StreamingResponse body "text/event-stream"
           [("Cache-Control", "no-cache"); ("Connection", "keep-alive")] /\
       stopped body =
         Raised {| status_code := 500;
                   detail := "Transcription error: " +:+ message |} /\
       yielded body =
         map (fun d => frame (line env d))
             (snd (for_loop initial (segments (model_transcribe env file_path)))) /\
       length (yielded body) =
         length (List.filter kept (segments (model_transcribe env file_path)))).
Proof.
  intros H. rewrite (transcribe_streams _ _ _ _ _ H).
  unfold transcribe_audio, event_generator, records.
  cbn [fst sse_events yielded stopped].
  set (t := model_transcribe env file_path).
  assert (~ In (frame (line env completion))
            (map frame (map (line env) (snd (for_loop initial (segments t))))))
    as Hnot.
  { rewrite map_map, in_map_iff. intros (d & Heq & Hin).
    pose proof (for_loop_results initial (segments t)) as Hres.
    rewrite Forall_forall in Hres.
    destruct (Hres d) as (speaker & s & _ & _ & ->);
      [now apply list_elem_of_In |].
    apply String.eqb_eq in Heq. rewrite String.eqb_sym in Heq.
    discriminate Heq. }
  split.
  - destruct (failure t) as [message|].
    + rewrite app_nil_r. split; [intros Hin; contradiction | discriminate].
    + split; [reflexivity |]. intros _.
      rewrite !map_app. apply in_or_app. right. now left.
  - intros message ->. eexists. split; [reflexivity |].
    cbn [stopped yielded]. rewrite app_nil_r, map_map.
    split; [reflexivity |]. split; [reflexivity |].
    now rewrite length_map, for_loop_length.
Qed.

Lemma completion_event_iff_engine_succeeds_witness :
  In (frame (line needs_hint completion))
     (sse_events (fst (transcribe needs_hint an_upload ∅))).
Proof.
  assert (process_audio_file needs_hint an_upload ∅ =
          (inr (wav_path_of needs_hint),
           <[wav_path_of needs_hint := []]>
             (<[upload_path needs_hint := []]> ∅))) as H.
  { unfold process_audio_file, convert, bind, lift, named_temporary_file,
      write_and_flush, export_wav, ret. cbn.
    now rewrite insert_insert_eq. }
  destruct (completion_event_iff_engine_succeeds needs_hint an_upload ∅ _ _ H)
    as [Hiff _].
  apply Hiff. reflexivity.
Defined.

(** X2: what a run yields before the engine fails is the beginning of what
    any run yields whose engine produces the same segments and then goes
    on, whether that one fails later or completes. *)
Theorem failed_run_is_a_prefix (segs more : list Segment) (message : string)
    (later : option string) :
  exists rest : list dict,
    records {| segments := segs ++ more; failure := later |} =
      (records {| segments := segs; failure := Some message |} ++ rest)%list /\
    rest = (snd (for_loop (fst (for_loop initial segs)) more) ++
            match later with None => [completion] | Some _ => [] end)%list.
Proof.
  eexists. split; [| reflexivity].
  unfold records. cbn [segments failure].
  rewrite for_loop_app. cbn [snd]. now rewrite app_nil_r, app_assoc.
Qed.

(** ** Labels *)

Lemma pause_check_label (st : locals) (s : Segment) :
  is_label (current_speaker st) = true -> is_label (pause_check st s) = true.
Proof.
  unfold pause_check, other_speaker. intros H.
  destruct (significant_pause st s); [| exact H].
  now destruct (String.eqb (current_speaker st) "Speaker 1").
Qed.

Lemma for_loop_labels (st : locals) (segs : list Segment) :
  is_label (current_speaker st) = true ->
  is_label (current_speaker (fst (for_loop st segs))) = true /\
  Forall (fun d => exists speaker,
            get d "speaker" = Some (Str speaker) /\ is_label speaker = true)
         (snd (for_loop st segs)).
Proof.
  revert st. induction segs as [|s rest IH]; intros st Hst.
  - split; [exact Hst | constructor].
  - pose proof (pause_check_label st s Hst) as Hnext.
    step_loop s.
    + destruct (IH {| current_speaker := pause_check st s;
                      last_end_time := end_ s |} Hnext) as [Hlast Hall].
      split; [exact Hlast |]. constructor; [| exact Hall].
      now exists (pause_check st s).
    + exact (IH {| current_speaker := pause_check st s;
                   last_end_time := last_end_time st |} Hnext).
Qed.

(** X3: every segment record of a run is labelled ["Speaker 1"] or
    ["Speaker 2"], whatever the engine produces and however often the
    speaker changes; the only record without a label is the completion
    message. *)
Theorem speaker_is_one_of_two (t : transcription) :
  Forall (fun d => d = completion \/
                   get d "speaker" = Some (Str "Speaker 1") \/
                   get d "speaker" = Some (Str "Speaker 2"))
         (records t).
Proof.
  unfold records. apply Forall_app. split.
  - destruct (for_loop_labels initial (segments t) eq_refl) as [_ Hall].
    eapply Forall_impl; [exact Hall |].
    intros d (speaker & -> & Hlabel). right.
    unfold is_label in Hlabel. apply orb_prop in Hlabel as [H|H];
      apply String.eqb_eq in H; subst; auto.
  - destruct (failure t); repeat constructor.
Qed.

(** X4: a segment whose stripped text is empty and which does not start
    more than half a second after [last_end_time] changes nothing: the
    loop yields the same records and ends in the same state as without
    it, wherever in the sequence it stands. *)
Theorem blank_segment_without_pause_is_ignored (st : locals)
    (before : list Segment) (s : Segment) (rest : list Segment) :
  truthy (strip (text s)) = false ->
  significant_pause (fst (for_loop st before)) s = false ->
  for_loop st (before ++ s :: rest) = for_loop st (before ++ rest).
Proof.
  intros K Hpause. rewrite !for_loop_app. rewrite for_loop_cons.
  rewrite (loop_body_dropped _ s K). cbn [fst snd].
  unfold pause_check. rewrite Hpause.
  now destruct (fst (for_loop st before)).
Qed.

Lemma blank_segment_without_pause_is_ignored_witness :
  for_loop initial (firstn 1 four_segments ++
                    segment 0.25 0.28 "  " :: skipn 1 four_segments) =
  for_loop initial (firstn 1 four_segments ++ skipn 1 four_segments).
Proof.
  apply (blank_segment_without_pause_is_ignored initial
           (firstn 1 four_segments) (segment 0.25 0.28 "  ")
           (skipn 1 four_segments)); reflexivity.
Defined.

(** ** The text sent *)

Lemma lstrip_no_leading_space (s : string) :
  starts_with_space (lstrip s) = false.
Proof.
  induction s as [|c s IH]; simpl; [reflexivity |].
  destruct (isspace c) eqn:Hc; [exact IH | simpl; exact Hc].
Qed.

Lemma rstrip_cons (c : ascii) (rest : string) :
  rstrip (String c rest) =
    match rstrip rest with
    | EmptyString => if isspace c then EmptyString else String c EmptyString
    | String b kept' => String c (String b kept')
    end.
Proof. simpl. now destruct (rstrip rest). Qed.

Lemma rstrip_keeps_head (s : string) :
  starts_with_space s = false -> starts_with_space (rstrip s) = false.
Proof.
  destruct s as [|c rest]; [reflexivity |].
  rewrite rstrip_cons. simpl. intros Hc.
  destruct (rstrip rest); [| exact Hc].
  now rewrite Hc.
Qed.

Lemma rstrip_no_trailing_space (s : string) :
  ends_with_space (rstrip s) = false.
Proof.
  induction s as [|c rest IH]; [reflexivity |].
  rewrite rstrip_cons.
  destruct (rstrip rest) as [|b kept'].
  - destruct (isspace c) eqn:Hc; [reflexivity | simpl; exact Hc].
  - exact IH.
Qed.

(** Stripping leaves alone what has no whitespace at either end. *)
Lemma lstrip_id (s : string) : starts_with_space s = false -> lstrip s = s.
Proof. destruct s as [|c rest]; simpl; [reflexivity | now intros ->]. Qed.

Lemma rstrip_id (s : string) : ends_with_space s = false -> rstrip s = s.
Proof.
  induction s as [|c rest IH]; [reflexivity |].
  rewrite rstrip_cons. destruct rest as [|b rest'].
  - simpl. now intros ->.
  - intros H. change (ends_with_space (String b rest') = false) in H.
    now rewrite (IH H).
Qed.

(** X5: the text of every record sent is non-empty and neither starts nor
    ends with a whitespace character; and a segment whose text already is
    like that is sent with its text as the engine gave it. *)
Theorem emitted_text_is_trimmed (st : locals) (segs : list Segment) :
  Forall (fun d => exists sent : string,
            get d "text" = Some (Str sent) /\
            sent <> "" /\
            starts_with_space sent = false /\
            ends_with_space sent = false)
         (snd (for_loop st segs)) /\
  (forall s : Segment,
     text s <> "" ->
     starts_with_space (text s) = false ->
     ends_with_space (text s) = false ->
     exists d : dict,
       snd (loop_body st s) = Some d /\ get d "text" = Some (Str (text s))).
Proof.
  split.
  - eapply Forall_impl; [apply for_loop_results |].
    intros d (speaker & s & _ & K & ->).
    exists (strip (text s)). split; [reflexivity |].
    split; [now apply truthy_true |]. unfold strip. split.
    + apply rstrip_keeps_head, lstrip_no_leading_space.
    + apply rstrip_no_trailing_space.
  - intros s Hne Hhead Htail.
    assert (strip (text s) = text s) as Hstrip.
    { unfold strip. rewrite (lstrip_id _ Hhead). now apply rstrip_id. }
    assert (kept s = true) as K.
    { unfold kept. rewrite Hstrip. now apply truthy_true. }
    rewrite (loop_body_kept st s K). eexists. split; [reflexivity |].
    cbn. now rewrite Hstrip.
Qed.

Lemma emitted_text_is_trimmed_witness :
  exists d : dict,
    snd (loop_body initial (segment 0.0 0.2 "one")) = Some d /\
    get d "text" = Some (Str "one").
Proof.
  destruct (emitted_text_is_trimmed initial []) as [_ Hsame].
  apply (Hsame (segment 0.0 0.2 "one")); [discriminate | reflexivity ..].
Defined.

(** ** The bytes of an event *)

Lemma all_printable_append (a b : string) :
  all_printable (a +:+ b) = all_printable a && all_printable b.
Proof.
  induction a as [|c a IH]; simpl; [reflexivity |].
  now rewrite IH, andb_assoc.
Qed.

Lemma escape_char_printable (c : ascii) : all_printable (escape_char c) = true.
Proof. destruct c as [[] [] [] [] [] [] [] []]; reflexivity. Qed.

Lemma escape_printable (s : string) : all_printable (escape s) = true.
Proof.
  induction s as [|c s IH]; simpl; [reflexivity |].
  now rewrite all_printable_append, escape_char_printable, IH.
Qed.

Lemma dumps_str_printable (s : string) : all_printable (dumps_str s) = true.
Proof.
  unfold dumps_str. rewrite !all_printable_append, escape_printable.
  reflexivity.
Qed.

Section PrintableRepr.

Variable repr : float -> string.
Hypothesis repr_printable : forall f, all_printable (repr f) = true.

Lemma dumps_value_printable (v : value) :
  all_printable (dumps_value repr v) = true.
Proof.
  destruct v as [s|f|[|]]; simpl; try reflexivity.
  - apply dumps_str_printable.
  - unfold dumps_float.
    destruct (is_nan f); [reflexivity |].
    destruct (PrimFloat.eqb f infinity); [reflexivity |].
    destruct (PrimFloat.eqb f neg_infinity); [reflexivity |].
    apply repr_printable.
Qed.

Lemma dumps_items_printable (d : dict) :
  all_printable (dumps_items repr d) = true.
Proof.
  induction d as [|[k v] rest IH]; [reflexivity |].
  cbn [dumps_items].
  rewrite !all_printable_append, dumps_str_printable, dumps_value_printable.
  destruct rest as [|item rest']; [reflexivity |].
  now rewrite all_printable_append, IH.
Qed.

Lemma json_dumps_printable (d : dict) :
  all_printable (json_dumps repr d) = true.
Proof.
  unfold json_dumps.
  now rewrite !all_printable_append, dumps_items_printable.
Qed.

End PrintableRepr.

(** X6: when [float.__repr__] gives printable ASCII, every event of every
    response is ["data: "], a body of printable ASCII characters only, and
    three line feeds: whatever characters the engine puts in a text (line
    feeds, quotes, anything above 0x7e), none of them reaches the wire
    unescaped, so an event has no line feed before its last three
    characters. *)
Theorem events_are_single_printable_lines (env : Environment)
    (file : UploadFile) (fs : files) :
  (forall f : float, all_printable (float_repr env f) = true) ->
  Forall (fun event => exists body : string,
            event = "data: " +:+ body +:+ LF +:+ LF +:+ LF /\
            all_printable body = true)
         (sse_events (fst (transcribe env file fs))).
Proof.
  intros Hrepr. unfold transcribe.
  destruct (process_audio_file env file fs) as [[[e|message]|file_path] fs1];
    try constructor.
  unfold transcribe_audio, event_generator. cbn [fst sse_events yielded].
  rewrite map_map. apply Forall_map, Forall_forall. intros d _.
  exists (json_dumps (float_repr env) d).
  split; [| now apply json_dumps_printable].
  unfold frame, line. now rewrite !append_assoc.
Qed.

Lemma events_are_single_printable_lines_witness :
  Forall (fun event => exists body : string,
            event = "data: " +:+ body +:+ LF +:+ LF +:+ LF /\
            all_printable body = true)
         (sse_events (fst (transcribe needs_hint an_upload ∅))).
Proof.
  apply (events_are_single_printable_lines needs_hint an_upload ∅).
  intros f. reflexivity.
Defined.

(** X11: a successful run sends one event per kept segment and one more;
    so when the engine produces no segment, or only segments whose
    stripped text is empty, the stream is the completion event alone. *)
Theorem one_more_event_than_kept_segments (env : Environment)
    (file : UploadFile) (fs : files) (file_path : string) (fs1 : files) :
  process_audio_file env file fs = (inr file_path, fs1) ->
  failure (model_transcribe env file_path) = None ->
  length (sse_events (fst (transcribe env file fs))) =
    S (length (List.filter kept (segments (model_transcribe env file_path)))) /\
  (forallb (fun s => negb (kept s)) (segments (model_transcribe env file_path))
     = true ->
   sse_events (fst (transcribe env file fs)) =
     [ "data: {" +:+ DQUOTE +:+ "complete" +:+ DQUOTE +:+ ": true}"
       +:+ LF +:+ LF +:+ LF ]).
Proof.
  intros H Hok. rewrite (transcribe_streams _ _ _ _ _ H).
  unfold transcribe_audio, event_generator, records.
  cbn [fst sse_events yielded]. rewrite Hok.
  set (segs := segments (model_transcribe env file_path)).
  split.
  - rewrite !length_map, length_app, for_loop_length. simpl. lia.
  - intros Hnone.
    assert (List.filter kept segs = []) as Hfilter.
    { apply filter_none. rewrite forallb_forall in Hnone.
      apply Forall_forall. intros s Hs.
      apply list_elem_of_In, Hnone, negb_true_iff in Hs. exact Hs. }
    pose proof (for_loop_length initial segs) as Hlen.
    rewrite Hfilter in Hlen.
    destruct (snd (for_loop initial segs)); [reflexivity | discriminate Hlen].
Qed.

Lemma one_more_event_than_kept_segments_witness :
  length (sse_events (fst (transcribe needs_hint an_upload ∅))) = 5.
Proof.
  assert (process_audio_file needs_hint an_upload ∅ =
          (inr (wav_path_of needs_hint),
           <[wav_path_of needs_hint := []]>
             (<[upload_path needs_hint := []]> ∅))) as H.
  { unfold process_audio_file, convert, bind, lift, named_temporary_file,
      write_and_flush, export_wav, ret. cbn.
    now rewrite insert_insert_eq. }
  destruct (one_more_event_than_kept_segments needs_hint an_upload ∅ _ _ H
              eq_refl) as [Hlength _].
  exact Hlength.
Defined.

(** ** The temporary directory, whatever is in it *)

(** X7: [cleanup] never adds or rewrites a file, and no path other than
    [file_path] and [file_path[:-4]] is ever removed; when [file_path]
    itself is missing nothing at all is removed, the file at
    [file_path[:-4]] included, because the second [os.remove] stands after
    the first in the same [try]; and a [file_path] that exists is gone
    afterwards even when the second removal fails. *)
Theorem cleanup_touches_two_paths_at_most (fs : files) (file_path : string) :
  cleanup fs file_path ⊆ fs /\
  (forall other : string,
     other <> file_path -> other <> drop_last4 file_path ->
     cleanup fs file_path !! other = fs !! other) /\
  (fs !! file_path = None -> cleanup fs file_path = fs) /\
  (is_Some (fs !! file_path) -> cleanup fs file_path !! file_path = None).
Proof.
  split; [apply cleanup_subseteq |].
  unfold cleanup, os_remove.
  destruct (fs !! file_path) as [data|] eqn:Hpath.
  - destruct (delete file_path fs !! drop_last4 file_path) as [data'|] eqn:Hup;
      (split; [| split]); try discriminate.
    + intros other H1 H2. now rewrite !lookup_delete_ne by congruence.
    + intros _. destruct (decide (drop_last4 file_path = file_path)) as [->|Hne].
      * apply lookup_delete_eq.
      * rewrite lookup_delete_ne by congruence. apply lookup_delete_eq.
    + intros other H1 H2. now rewrite lookup_delete_ne by congruence.
    + intros _. apply lookup_delete_eq.
  - split; [reflexivity |]. split; [reflexivity |].
    intros [data H]. discriminate H.
Qed.

Lemma cleanup_touches_two_paths_at_most_witness :
  cleanup (<["/tmp/tmpk3x9.m4a" := []]> ∅) "/tmp/tmpk3x9.m4a.wav" =
    <["/tmp/tmpk3x9.m4a" := []]> ∅.
Proof.
  apply (cleanup_touches_two_paths_at_most
           (<["/tmp/tmpk3x9.m4a" := []]> ∅) "/tmp/tmpk3x9.m4a.wav").
  reflexivity.
Defined.

(** X8: when neither of the two temporary paths was in use before the
    request and the conversion works, the temporary directory after the
    stream has ended is the directory before the request, whether the
    engine failed or not. *)
Theorem temporary_directory_restored (env : Environment) (file : UploadFile)
    (fs : files) (file_path : string) (fs1 : files) :
  process_audio_file env file fs = (inr file_path, fs1) ->
  fs !! upload_path env = None ->
  fs !! wav_path_of env = None ->
  snd (transcribe env file fs) = fs.
Proof.
  intros H Hupload Hwav. rewrite (transcribe_streams _ _ _ _ _ H). cbn [snd].
  destruct (process_audio_file_ok _ _ _ _ _ H) as (content & data & _ & -> & ->).
  rewrite cleanup_after_conversion.
  now rewrite (delete_id _ _ Hwav), (delete_id _ _ Hupload).
Qed.

Lemma temporary_directory_restored_witness :
  snd (transcribe engine_fails an_upload ∅) = ∅.
Proof.
  assert (process_audio_file engine_fails an_upload ∅ =
          (inr (wav_path_of engine_fails),
           <[wav_path_of engine_fails := []]>
             (<[upload_path engine_fails := []]> ∅))) as H.
  { unfold process_audio_file, convert, bind, lift, named_temporary_file,
      write_and_flush, export_wav, ret. cbn.
    now rewrite insert_insert_eq. }
  apply (temporary_directory_restored engine_fails an_upload ∅ _ _ H);
    apply lookup_empty.
Defined.





(** ** Decoding and labels once more *)

(** X10: the decoding of lines 36-41 raises exactly when both attempts
    raise, and then with the message of the attempt with the format hint:
    the message of the auto-detecting attempt is never reported; and when
    the first attempt works, what it returns is used and no second attempt
    is made. *)
Theorem load_raises_iff_both_attempts_raise (env : Environment) (name : string)
    (message : string) :
  (snd (load env name) = inl message <->
   (exists first, from_file env name None = inl first) /\
   from_file env name (Some "m4a") = inl message) /\
  (forall audio : Audio env,
     from_file env name None = inr audio ->
     load env name = ([None], inr audio)).
Proof.
  unfold load. destruct (from_file env name None) as [first|audio].
  - split; [| discriminate]. cbn [snd]. split.
    + intros H. split; [now exists first | exact H].
    + now intros [_ H].
  - split.
    + cbn [snd]. split; [discriminate |]. intros [[first H] _]. discriminate H.
    + now intros audio' [= ->].
Qed.

Lemma load_raises_iff_both_attempts_raise_witness :
  load needs_hint "/tmp/tmpk3x9.m4a" = ([None; Some "m4a"], inr tt) /\
  load export_fails "/tmp/tmpk3x9.m4a" = ([None], inr tt).
Proof.
  split; [reflexivity |].
  apply (load_raises_iff_both_attempts_raise export_fails "/tmp/tmpk3x9.m4a" "").
  reflexivity.
Defined.

(** X12: in every state the loop can reach from its start, a significant
    pause really changes the speaker: the speaker afterwards differs from
    the one before, and a second change would give the first back; without
    a significant pause the speaker stays.  This holds for dropped segments
    as for kept ones. *)
Theorem pause_changes_speaker_exactly (before : list Segment) (s : Segment) :
  (significant_pause (fst (for_loop initial before)) s = true ->
   current_speaker (fst (loop_body (fst (for_loop initial before)) s)) <>
     current_speaker (fst (for_loop initial before)) /\
   other_speaker
     (current_speaker (fst (loop_body (fst (for_loop initial before)) s))) =
     current_speaker (fst (for_loop initial before))) /\
  (significant_pause (fst (for_loop initial before)) s = false ->
   current_speaker (fst (loop_body (fst (for_loop initial before)) s)) =
     current_speaker (fst (for_loop initial before))).
Proof.
  destruct (for_loop_labels initial before eq_refl) as [Hlabel _].
  set (st := fst (for_loop initial before)) in *.
  assert (current_speaker (fst (loop_body st s)) = pause_check st s) as ->.
  { unfold loop_body. now destruct (truthy (strip (text s))). }
  unfold pause_check, is_label in *.
  apply orb_prop in Hlabel as [H|H]; apply String.eqb_eq in H; rewrite H.
  - split; intros ->; [| reflexivity]. split; [discriminate | reflexivity].
  - split; intros ->; [| reflexivity]. split; [discriminate | reflexivity].
Qed.

Lemma pause_changes_speaker_exactly_witness :
  current_speaker
    (fst (loop_body (fst (for_loop initial (firstn 2 four_segments)))
                    (segment 1.2 1.25 "three"))) <>
  current_speaker (fst (for_loop initial (firstn 2 four_segments))).
Proof.
  apply (pause_changes_speaker_exactly (firstn 2 four_segments)
           (segment 1.2 1.25 "three")).
  reflexivity.
Defined.
